(** * bolt::MemoryLeakDetector (memory_leak_detector.hpp)

    A shallow embedding of the allocation registry of Bolt C++ ML and the
    properties of its incremental counters.

    Conventions of the embedding:
    - [void*] keys are the numeric value of the address, a [Z]; [nullptr]
      is [0].
    - [size_t] is an unsigned 64-bit integer: a [Z] on which every
      arithmetic operation of the source is followed by [wrap].
    - [std::map<K,V>] is a [gmap K V].  The loops of the source that walk a
      map only accumulate sums, so the traversal order never shows in a
      result (lemmas [leaked_bytes_perm] and [group_fold_perm]).
    - [steady_clock::now()] is an input: the operations that read the clock
      take the reading as an argument. *)

From stdpp Require Import gmap strings list fin_maps sorting.
From Stdlib Require Import ZArith Lia.

Local Open Scope Z_scope.

(** ** size_t arithmetic *)

Definition SIZE_MOD : Z := 2 ^ 64.

Definition wrap (z : Z) : Z := z mod SIZE_MOD.

Definition is_size_t (z : Z) : Prop := 0 <= z < SIZE_MOD.

Definition nullptr : Z := 0.

(** ** struct AllocationInfo *)

Module AllocationInfo.

Record t : Type := mk {
  pointer : Z;
  size : Z;
  file : string;
  line : Z;
  function : string;
  timestamp : Z;
  category : string;
  tracked : bool
}.

(** The constructor of the source: [timestamp] is the clock reading at
    construction and [tracked] starts as [true]. *)
Definition make (ptr sz : Z) (f : string) (l : Z) (func cat : string)
    (now : Z) : t :=
  mk ptr sz f l func now cat true.

End AllocationInfo.

(** ** struct LeakDetectionStats *)

Record LeakDetectionStats : Type := {
  totalLeaks : Z;
  totalLeakedBytes : Z;
  peakMemoryUsage : Z;
  currentMemoryUsage : Z;
  leaksByCategory : gmap string Z;
  leaksByFile : gmap string Z;
  detectionTime : Z
}.

(** ** class MemoryLeakDetector: the private members *)

Record MemoryLeakDetector : Type := {
  enabled_ : bool;
  allocations_ : gmap Z AllocationInfo.t;
  currentMemoryUsage_ : Z;
  peakMemoryUsage_ : Z;
  categoryStats_ : gmap string Z
}.

(** The default member initialisers: what [getInstance] first returns. *)
Definition fresh : MemoryLeakDetector :=
  {| enabled_ := true;
     allocations_ := ∅;
     currentMemoryUsage_ := 0;
     peakMemoryUsage_ := 0;
     categoryStats_ := ∅ |}.

(** [m[k]] read on a [std::map<std::string, size_t>]: a missing key is
    value-initialised to [0]. *)
Definition subscript (m : gmap string Z) (k : string) : Z :=
  default 0 (m !! k).

(** [m[k] += d] and [m[k] -= d] in [size_t] arithmetic. *)
Definition subscript_add (m : gmap string Z) (k : string) (d : Z)
    : gmap string Z :=
  <[k := wrap (subscript m k + d)]> m.

Definition subscript_sub (m : gmap string Z) (k : string) (d : Z)
    : gmap string Z :=
  <[k := wrap (subscript m k - d)]> m.

Definition setEnabled (d : MemoryLeakDetector) (enabled : bool)
    : MemoryLeakDetector :=
  {| enabled_ := enabled;
     allocations_ := allocations_ d;
     currentMemoryUsage_ := currentMemoryUsage_ d;
     peakMemoryUsage_ := peakMemoryUsage_ d;
     categoryStats_ := categoryStats_ d |}.

Definition isEnabled (d : MemoryLeakDetector) : bool := enabled_ d.

Definition trackAllocation (d : MemoryLeakDetector) (ptr sz : Z)
    (f : string) (l : Z) (func cat : string) (now : Z)
    : MemoryLeakDetector :=
  if negb (enabled_ d) || (ptr =? nullptr) then d
  else
    let info := AllocationInfo.make ptr sz f l func cat now in
    let cur := wrap (currentMemoryUsage_ d + sz) in
    {| enabled_ := enabled_ d;
       allocations_ := <[ptr := info]> (allocations_ d);
       currentMemoryUsage_ := cur;
       peakMemoryUsage_ :=
         if cur >? peakMemoryUsage_ d then cur else peakMemoryUsage_ d;
       categoryStats_ := subscript_add (categoryStats_ d) cat sz |}.

Definition untrackAllocation (d : MemoryLeakDetector) (ptr : Z)
    : MemoryLeakDetector :=
  if negb (enabled_ d) || (ptr =? nullptr) then d
  else
    match allocations_ d !! ptr with
    | Some info =>
        {| enabled_ := enabled_ d;
           allocations_ := delete ptr (allocations_ d);
           currentMemoryUsage_ :=
             wrap (currentMemoryUsage_ d - AllocationInfo.size info);
           peakMemoryUsage_ := peakMemoryUsage_ d;
           categoryStats_ :=
             subscript_sub (categoryStats_ d) (AllocationInfo.category info)
               (AllocationInfo.size info) |}
    | None => d
    end.

Definition hasLeaks (d : MemoryLeakDetector) : bool :=
  negb (bool_decide (allocations_ d = ∅)).

Definition getLeakCount (d : MemoryLeakDetector) : Z :=
  Z.of_nat (size (allocations_ d)).

(** The loop body of [getLeakedBytes]: [total += pair.second.size]. *)
Definition add_size (_ : Z) (info : AllocationInfo.t) (total : Z) : Z :=
  wrap (total + AllocationInfo.size info).

Definition getLeakedBytes (d : MemoryLeakDetector) : Z :=
  map_fold add_size 0 (allocations_ d).

(** The loop body of [getStats]: both group maps are updated from the same
    record. *)
Definition group_step (_ : Z) (info : AllocationInfo.t)
    (acc : gmap string Z * gmap string Z) : gmap string Z * gmap string Z :=
  (subscript_add acc.1 (AllocationInfo.category info)
     (AllocationInfo.size info),
   subscript_add acc.2 (AllocationInfo.file info)
     (AllocationInfo.size info)).

Definition getStats (d : MemoryLeakDetector) (now : Z) : LeakDetectionStats :=
  let groups := map_fold group_step (∅, ∅) (allocations_ d) in
  {| totalLeaks := getLeakCount d;
     totalLeakedBytes := getLeakedBytes d;
     peakMemoryUsage := peakMemoryUsage_ d;
     currentMemoryUsage := currentMemoryUsage_ d;
     leaksByCategory := groups.1;
     leaksByFile := groups.2;
     detectionTime := now |}.

Definition clear (d : MemoryLeakDetector) : MemoryLeakDetector :=
  {| enabled_ := enabled_ d;
     allocations_ := ∅;
     currentMemoryUsage_ := 0;
     peakMemoryUsage_ := peakMemoryUsage_ d;
     categoryStats_ := ∅ |}.

Definition resetStats (d : MemoryLeakDetector) : MemoryLeakDetector :=
  {| enabled_ := enabled_ d;
     allocations_ := allocations_ d;
     currentMemoryUsage_ := currentMemoryUsage_ d;
     peakMemoryUsage_ := currentMemoryUsage_ d;
     categoryStats_ := categoryStats_ d |}.

(** ** Call sequences *)

(** One call of the mutating interface, with its arguments. *)
Inductive call : Type :=
| Track (ptr sz : Z) (f : string) (l : Z) (func cat : string) (now : Z)
| Untrack (ptr : Z)
| Clear
| ResetStats
| SetEnabled (enabled : bool).

Definition step (d : MemoryLeakDetector) (c : call) : MemoryLeakDetector :=
  match c with
  | Track ptr sz f l func cat now => trackAllocation d ptr sz f l func cat now
  | Untrack ptr => untrackAllocation d ptr
  | Clear => clear d
  | ResetStats => resetStats d
  | SetEnabled b => setEnabled d b
  end.

Definition run (d : MemoryLeakDetector) (cs : list call) : MemoryLeakDetector :=
  foldl step d cs.

(** A call of the allocation-site interface ([TRACK_ALLOCATION] /
    [UNTRACK_ALLOCATION]) on a non-null address. *)
Definition tracking_call (c : call) : bool :=
  match c with
  | Track ptr _ _ _ _ _ _ => negb (ptr =? nullptr)
  | Untrack ptr => negb (ptr =? nullptr)
  | _ => false
  end.

(** Track or untrack, whatever the address. *)
Definition site_call (c : call) : bool :=
  match c with
  | Track _ _ _ _ _ _ _ | Untrack _ => true
  | _ => false
  end.

(** The addresses tracked and not yet untracked, replayed on the call
    sequence alone. *)
Definition live_step (live : gset Z) (c : call) : gset Z :=
  match c with
  | Track ptr _ _ _ _ _ _ => {[ptr]} ∪ live
  | Untrack ptr => live ∖ {[ptr]}
  | _ => live
  end.

Definition live_after (live : gset Z) (cs : list call) : gset Z :=
  foldl live_step live cs.

(** No address is tracked while it is live. *)
Fixpoint no_retrack (live : gset Z) (cs : list call) : bool :=
  match cs with
  | [] => true
  | c :: cs' =>
      match c with
      | Track ptr _ _ _ _ _ _ => bool_decide (ptr ∉ live)
      | _ => true
      end && no_retrack (live_step live c) cs'
  end.

(** The sum of the live sizes as a mathematical integer. *)
Definition exact_live_bytes (m : gmap Z AllocationInfo.t) : Z :=
  map_fold (λ _ info total, total + AllocationInfo.size info) 0 m.

(** Every [trackAllocation] that takes effect receives a [size_t] and does
    not carry [currentMemoryUsage_] past [SIZE_MAX]. *)
Fixpoint no_overflow (d : MemoryLeakDetector) (cs : list call) : bool :=
  match cs with
  | [] => true
  | c :: cs' =>
      match c with
      | Track ptr sz _ _ _ _ _ =>
          if negb (enabled_ d) || (ptr =? nullptr) then true
          else (0 <=? sz) && (currentMemoryUsage_ d + sz <? SIZE_MOD)
      | _ => true
      end && no_overflow (step d c) cs'
  end.

(** Grouping a list of records by a key: the sum of the sizes in a group,
    and no entry for a group without a record. *)
Definition group_sum (key : AllocationInfo.t → string)
    (l : list AllocationInfo.t) (k : string) : option Z :=
  match filter (λ info, key info = k) l with
  | [] => None
  | sel => Some (wrap (foldr Z.add 0 (AllocationInfo.size <$> sel)))
  end.

Definition live_records (d : MemoryLeakDetector) : list AllocationInfo.t :=
  (map_to_list (allocations_ d)).*2.

(** The counters have not wrapped: live sizes are non-negative, the running
    counter is a [size_t] that covers the exact live sum, and the peak
    covers the running counter. *)
Definition counters_sound (d : MemoryLeakDetector) : Prop :=
  map_Forall (λ _ info, 0 <= AllocationInfo.size info) (allocations_ d)
  ∧ exact_live_bytes (allocations_ d) <= currentMemoryUsage_ d
  ∧ currentMemoryUsage_ d < SIZE_MOD
  ∧ currentMemoryUsage_ d <= peakMemoryUsage_ d.

(** ** Two callers of [trackAllocation] at once

    The class has five data members and no mutex; no member function takes
    a lock.  Two threads inside [trackAllocation] can therefore alternate
    between any two accesses to the members.  The body is cut at its
    statements, and the compound assignment [currentMemoryUsage_ += size]
    at its read and its write; the other statements are taken as
    indivisible, which only removes interleavings. *)

Record track_args : Type := {
  arg_ptr : Z;
  arg_size : Z;
  arg_file : string;
  arg_line : Z;
  arg_function : string;
  arg_category : string;
  arg_now : Z
}.

(** Where a caller stands in the body. *)
Inductive position : Type :=
| AtGuard
| AtInsert
| AtLoadUsage
| AtStoreUsage (loaded : Z)
| AtPeak
| AtCategory
| Returned.

Definition micro_step (d : MemoryLeakDetector) (a : track_args)
    (p : position) : MemoryLeakDetector * position :=
  match p with
  | AtGuard =>
      if negb (enabled_ d) || (arg_ptr a =? nullptr) then (d, Returned)
      else (d, AtInsert)
  | AtInsert =>
      ({| enabled_ := enabled_ d;
          allocations_ :=
            <[arg_ptr a :=
                AllocationInfo.make (arg_ptr a) (arg_size a) (arg_file a)
                  (arg_line a) (arg_function a) (arg_category a) (arg_now a)]>
              (allocations_ d);
          currentMemoryUsage_ := currentMemoryUsage_ d;
          peakMemoryUsage_ := peakMemoryUsage_ d;
          categoryStats_ := categoryStats_ d |}, AtLoadUsage)
  | AtLoadUsage => (d, AtStoreUsage (currentMemoryUsage_ d))
  | AtStoreUsage loaded =>
      ({| enabled_ := enabled_ d;
          allocations_ := allocations_ d;
          currentMemoryUsage_ := wrap (loaded + arg_size a);
          peakMemoryUsage_ := peakMemoryUsage_ d;
          categoryStats_ := categoryStats_ d |}, AtPeak)
  | AtPeak =>
      ({| enabled_ := enabled_ d;
          allocations_ := allocations_ d;
          currentMemoryUsage_ := currentMemoryUsage_ d;
          peakMemoryUsage_ :=
            if currentMemoryUsage_ d >? peakMemoryUsage_ d
            then currentMemoryUsage_ d else peakMemoryUsage_ d;
          categoryStats_ := categoryStats_ d |}, AtCategory)
  | AtCategory =>
      ({| enabled_ := enabled_ d;
          allocations_ := allocations_ d;
          currentMemoryUsage_ := currentMemoryUsage_ d;
          peakMemoryUsage_ := peakMemoryUsage_ d;
          categoryStats_ :=
            subscript_add (categoryStats_ d) (arg_category a) (arg_size a) |},
       Returned)
  | Returned => (d, Returned)
  end.

(** One caller on its own, for [n] steps. *)
Fixpoint alone (n : nat) (a : track_args) (d : MemoryLeakDetector)
    (p : position) : MemoryLeakDetector * position :=
  match n with
  | O => (d, p)
  | S n' => let '(d', p') := micro_step d a p in alone n' a d' p'
  end.

(** Two callers; the schedule says who moves: [true] the first. *)
Definition sched_step (a1 a2 : track_args)
    (cfg : MemoryLeakDetector * position * position) (first : bool)
    : MemoryLeakDetector * position * position :=
  let '(d, p1, p2) := cfg in
  if first then let '(d', p1') := micro_step d a1 p1 in (d', p1', p2)
  else let '(d', p2') := micro_step d a2 p2 in (d', p1, p2').

Definition interleave (a1 a2 : track_args) (d : MemoryLeakDetector)
    (schedule : list bool) : MemoryLeakDetector * position * position :=
  foldl (sched_step a1 a2) (d, AtGuard, AtGuard) schedule.

Definition track_with (d : MemoryLeakDetector) (a : track_args)
    : MemoryLeakDetector :=
  trackAllocation d (arg_ptr a) (arg_size a) (arg_file a) (arg_line a)
    (arg_function a) (arg_category a) (arg_now a).

Definition caller_1 : track_args :=
  {| arg_ptr := 1; arg_size := 8; arg_file := "a.cpp"; arg_line := 10;
     arg_function := "f"; arg_category := "general"; arg_now := 0 |}.

Definition caller_2 : track_args :=
  {| arg_ptr := 2; arg_size := 8; arg_file := "b.cpp"; arg_line := 20;
     arg_function := "g"; arg_category := "general"; arg_now := 0 |}.

(** Both callers read [currentMemoryUsage_] before either writes it. *)
Definition both_read_first : list bool :=
  [true; true; true; false; false; false;
   true; false; true; true; false; false].

(** ** Concrete call sequences used by the examples *)

Definition balance_law_calls : list call :=
  [Track 1 100 "a.cpp" 10 "f" "a" 0;
   Track 2 200 "b.cpp" 20 "g" "b" 1;
   Untrack 1;
   Untrack 9;
   Track 1 50 "a.cpp" 11 "f" "a" 2].

Definition retrack_calls : list call :=
  [Track 1 100 "a.cpp" 10 "f" "a" 0;
   Track 1 50 "b.cpp" 20 "g" "b" 7].

(** Two distinct allocations whose sizes add up past [SIZE_MAX], then the
    release of the first one. *)
Definition wrapped_pair : list call :=
  [Track 1 (2 ^ 63) "a.cpp" 10 "f" "a" 0;
   Track 2 (2 ^ 63 + 5) "a.cpp" 20 "g" "a" 1].

Definition wrapping_calls : list call := wrapped_pair ++ [Untrack 1].

(** Scenario D of the specification. *)
Definition scenario_D : list call :=
  [Track 1 4096 "a.cpp" 10 "f" "general" 0;
   Untrack 1;
   Track 2 1024 "a.cpp" 20 "g" "general" 1].

(** ** [getLeaks] and the replay predicates of the further properties *)

(** [std::map] walks its entries by ascending key. *)
Definition key_le (x y : Z * AllocationInfo.t) : Prop := x.1 <= y.1.

Definition key_le_dec (x y : Z * AllocationInfo.t) : Decision (key_le x y) :=
  decide (x.1 <= y.1).

Definition entries_by_key (m : gmap Z AllocationInfo.t)
    : list (Z * AllocationInfo.t) :=
  @merge_sort _ key_le key_le_dec (map_to_list m).

(** The loop of [getLeaks]: [leaks.push_back (pair.second)]. *)
Definition getLeaks (d : MemoryLeakDetector) : list AllocationInfo.t :=
  (entries_by_key (allocations_ d)).*2.

(** What [trackAllocation] stores: the record under [ptr] carries [ptr],
    is flagged [tracked], and [ptr] is not null. *)
Definition records_keyed (d : MemoryLeakDetector) : Prop :=
  map_Forall
    (λ ptr info,
       AllocationInfo.pointer info = ptr
       ∧ AllocationInfo.tracked info = true
       ∧ ptr ≠ nullptr)
    (allocations_ d).

(** No [trackAllocation] that takes effect lands on an address that the
    live map holds at that moment. *)
Fixpoint no_overwrite (d : MemoryLeakDetector) (cs : list call) : bool :=
  match cs with
  | [] => true
  | c :: cs' =>
      match c with
      | Track ptr _ _ _ _ _ _ =>
          if negb (enabled_ d) || (ptr =? nullptr) then true
          else bool_decide (allocations_ d !! ptr = None)
      | _ => true
      end && no_overwrite (step d c) cs'
  end.

(** The largest value [currentMemoryUsage_] has taken since the last
    [resetStats], replayed along the calls. *)
Fixpoint usage_high_water (d : MemoryLeakDetector) (high : Z)
    (cs : list call) : Z :=
  match cs with
  | [] => high
  | c :: cs' =>
      usage_high_water (step d c)
        match c with
        | ResetStats => currentMemoryUsage_ (step d c)
        | _ => Z.max high (currentMemoryUsage_ (step d c))
        end cs'
  end.

(** The sum of the values of a group map. *)
Definition total_of (m : gmap string Z) : Z :=
  map_fold (λ _ v total, total + v) 0 m.

(** All counters are [size_t] values. *)
Definition counters_in_range (d : MemoryLeakDetector) : Prop :=
  is_size_t (currentMemoryUsage_ d)
  ∧ is_size_t (peakMemoryUsage_ d)
  ∧ map_Forall (λ _ v, is_size_t v) (categoryStats_ d).

(** Calls of every kind, two disabled and one on the null address. *)
Definition mixed_calls : list call :=
  [Track 1 100 "a.cpp" 10 "f" "a" 0;
   Track 2 200 "b.cpp" 20 "g" "b" 1;
   SetEnabled false;
   Track 3 300 "c.cpp" 30 "h" "a" 2;
   Untrack 2;
   SetEnabled true;
   Track 0 400 "d.cpp" 40 "i" "b" 3;
   Untrack 1;
   ResetStats;
   Track 4 50 "a.cpp" 50 "f" "a" 4].

(** * Properties *)

(** ** size_t arithmetic *)

Lemma SIZE_MOD_pos : 0 < SIZE_MOD.
Proof. reflexivity. Qed.

Lemma wrap_range z : is_size_t (wrap z).
Proof. apply Z.mod_pos_bound, SIZE_MOD_pos. Qed.

Lemma wrap_small z : is_size_t z → wrap z = z.
Proof. intros Hz. apply Z.mod_small, Hz. Qed.

Lemma wrap_add_l a b : wrap (wrap a + b) = wrap (a + b).
Proof. apply Zplus_mod_idemp_l. Qed.

Lemma wrap_add_r a b : wrap (a + wrap b) = wrap (a + b).
Proof. apply Zplus_mod_idemp_r. Qed.

Lemma wrap_sub_l a b : wrap (wrap a - b) = wrap (a - b).
Proof. apply Zminus_mod_idemp_l. Qed.

Lemma wrap_sub_r a b : wrap (a - wrap b) = wrap (a - b).
Proof. apply Zminus_mod_idemp_r. Qed.

(** A subtraction that goes below zero comes back from the top. *)
Lemma wrap_borrow a b :
  is_size_t a → is_size_t b → a < b → wrap (a - b) = a - b + SIZE_MOD.
Proof.
  unfold is_size_t, wrap. intros Ha Hb Hlt.
  symmetry. apply (Z.mod_unique _ _ (-1)); lia.
Qed.

(** ** The full scan of [getLeakedBytes] *)

Lemma add_size_comm j1 z1 j2 z2 y :
  add_size j1 z1 (add_size j2 z2 y) = add_size j2 z2 (add_size j1 z1 y).
Proof.
  unfold add_size. rewrite !wrap_add_l. f_equal. lia.
Qed.

Lemma exact_live_bytes_empty : exact_live_bytes ∅ = 0.
Proof. apply map_fold_empty. Qed.

Lemma exact_live_bytes_fresh (m : gmap Z AllocationInfo.t) ptr info :
  m !! ptr = None →
  exact_live_bytes (<[ptr := info]> m)
  = exact_live_bytes m + AllocationInfo.size info.
Proof.
  intros Hfree. unfold exact_live_bytes.
  rewrite map_fold_insert_L; [done | intros; lia | done].
Qed.

Lemma exact_live_bytes_delete (m : gmap Z AllocationInfo.t) ptr info :
  m !! ptr = Some info →
  exact_live_bytes (delete ptr m)
  = exact_live_bytes m - AllocationInfo.size info.
Proof.
  intros Hlive. unfold exact_live_bytes.
  rewrite (map_fold_delete_L _ _ ptr info m); [lia | intros; lia | done].
Qed.

(** Overwriting a live record replaces its size in the sum. *)
Lemma exact_live_bytes_overwrite (m : gmap Z AllocationInfo.t) ptr old info :
  m !! ptr = Some old →
  exact_live_bytes (<[ptr := info]> m)
  = exact_live_bytes m - AllocationInfo.size old + AllocationInfo.size info.
Proof.
  intros Hlive. rewrite <- insert_delete_eq.
  rewrite exact_live_bytes_fresh by apply lookup_delete_eq.
  by rewrite (exact_live_bytes_delete m ptr old).
Qed.

Lemma exact_live_bytes_nonneg (m : gmap Z AllocationInfo.t) :
  map_Forall (λ _ info, 0 <= AllocationInfo.size info) m →
  0 <= exact_live_bytes m.
Proof.
  induction m as [|ptr info m Hfree IH] using map_ind; intros Hall.
  - by rewrite exact_live_bytes_empty.
  - rewrite exact_live_bytes_fresh by done.
    apply map_Forall_insert in Hall as [Hinfo Hrest]; [|done].
    specialize (IH Hrest). lia.
Qed.

(** The scan computes the exact sum modulo [SIZE_MOD]. *)
Lemma leaked_bytes_exact d :
  getLeakedBytes d = wrap (exact_live_bytes (allocations_ d)).
Proof.
  unfold getLeakedBytes.
  induction (allocations_ d) as [|ptr info m Hfree IH] using map_ind.
  - by rewrite map_fold_empty, exact_live_bytes_empty.
  - rewrite map_fold_insert_L; [| intros; apply add_size_comm | done].
    rewrite exact_live_bytes_fresh by done.
    unfold add_size at 1. by rewrite IH, wrap_add_l.
Qed.

(** The result of the scan does not depend on the order of the walk. *)
Lemma leaked_bytes_perm (l1 l2 : list (Z * AllocationInfo.t)) b :
  l1 ≡ₚ l2 → foldr (uncurry add_size) b l1 = foldr (uncurry add_size) b l2.
Proof.
  intros Hperm. apply (foldr_permutation (=) _ b); [|done].
  intros j1 [p1 i1] j2 [p2 i2] y _ _ _. apply add_size_comm.
Qed.

(** ** The two paths of [trackAllocation] and [untrackAllocation] *)

Lemma guard_false d ptr :
  enabled_ d = true → ptr ≠ nullptr →
  negb (enabled_ d) || (ptr =? nullptr) = false.
Proof.
  intros -> Hptr. simpl. by apply Z.eqb_neq.
Qed.

Lemma track_effective d ptr sz f l func cat now :
  enabled_ d = true → ptr ≠ nullptr →
  trackAllocation d ptr sz f l func cat now
  = {| enabled_ := true;
       allocations_ :=
         <[ptr := AllocationInfo.make ptr sz f l func cat now]>
           (allocations_ d);
       currentMemoryUsage_ := wrap (currentMemoryUsage_ d + sz);
       peakMemoryUsage_ :=
         if wrap (currentMemoryUsage_ d + sz) >? peakMemoryUsage_ d
         then wrap (currentMemoryUsage_ d + sz) else peakMemoryUsage_ d;
       categoryStats_ := subscript_add (categoryStats_ d) cat sz |}.
Proof.
  intros Hen Hptr. unfold trackAllocation.
  rewrite guard_false by done. by rewrite Hen.
Qed.

Lemma untrack_live d ptr info :
  enabled_ d = true → ptr ≠ nullptr → allocations_ d !! ptr = Some info →
  untrackAllocation d ptr
  = {| enabled_ := true;
       allocations_ := delete ptr (allocations_ d);
       currentMemoryUsage_ :=
         wrap (currentMemoryUsage_ d - AllocationInfo.size info);
       peakMemoryUsage_ := peakMemoryUsage_ d;
       categoryStats_ :=
         subscript_sub (categoryStats_ d) (AllocationInfo.category info)
           (AllocationInfo.size info) |}.
Proof.
  intros Hen Hptr Hlive. unfold untrackAllocation.
  rewrite guard_false by done. by rewrite Hlive, Hen.
Qed.

Lemma untrack_absent d ptr :
  allocations_ d !! ptr = None → untrackAllocation d ptr = d.
Proof.
  intros Habsent. unfold untrackAllocation.
  destruct (negb (enabled_ d) || (ptr =? nullptr)); [done|].
  by rewrite Habsent.
Qed.

Lemma track_enabled_ d ptr sz f l func cat now :
  enabled_ (trackAllocation d ptr sz f l func cat now) = enabled_ d.
Proof.
  unfold trackAllocation.
  by destruct (negb (enabled_ d) || (ptr =? nullptr)).
Qed.

Lemma untrack_enabled_ d ptr :
  enabled_ (untrackAllocation d ptr) = enabled_ d.
Proof.
  unfold untrackAllocation.
  destruct (negb (enabled_ d) || (ptr =? nullptr)); [done|].
  by destruct (allocations_ d !! ptr).
Qed.

Lemma run_cons d c cs : run d (c :: cs) = run (step d c) cs.
Proof. reflexivity. Qed.

Lemma run_snoc d cs c : run d (cs ++ [c]) = step (run d cs) c.
Proof. unfold run. by rewrite foldl_app. Qed.

(** ** Balance of the running counter (no address tracked while live) *)

Lemma tracking_call_step d c :
  enabled_ d = true → tracking_call c = true →
  match c with
  | Track ptr _ _ _ _ _ _ => allocations_ d !! ptr = None
  | _ => True
  end →
  currentMemoryUsage_ d = wrap (exact_live_bytes (allocations_ d)) →
  enabled_ (step d c) = true
  ∧ currentMemoryUsage_ (step d c)
    = wrap (exact_live_bytes (allocations_ (step d c)))
  ∧ dom (allocations_ (step d c)) = live_step (dom (allocations_ d)) c.
Proof.
  intros Hen Hcall Hfree Hbal.
  destruct c as [ptr sz f l func cat now|ptr| | |]; simpl in *; try done.
  - apply negb_true_iff, Z.eqb_neq in Hcall.
    rewrite track_effective by done. simpl.
    rewrite exact_live_bytes_fresh by done. simpl.
    rewrite Hbal, wrap_add_l, dom_insert_L. done.
  - apply negb_true_iff, Z.eqb_neq in Hcall.
    destruct (allocations_ d !! ptr) as [info|] eqn:Hlive.
    + rewrite (untrack_live d ptr info) by done. simpl.
      rewrite (exact_live_bytes_delete _ ptr info) by done.
      rewrite Hbal, wrap_sub_l, dom_delete_L. done.
    + rewrite untrack_absent by done.
      apply not_elem_of_dom in Hlive.
      repeat split; [done..|].
      symmetry. by apply difference_disjoint_L, disjoint_singleton_r.
Qed.

Lemma tracking_calls_run cs : ∀ d,
  enabled_ d = true →
  forallb tracking_call cs = true →
  no_retrack (dom (allocations_ d)) cs = true →
  currentMemoryUsage_ d = wrap (exact_live_bytes (allocations_ d)) →
  currentMemoryUsage_ (run d cs)
  = wrap (exact_live_bytes (allocations_ (run d cs)))
  ∧ dom (allocations_ (run d cs)) = live_after (dom (allocations_ d)) cs.
Proof.
  induction cs as [|c cs IH]; intros d Hen Hcalls Hfresh Hbal; [done|].
  simpl in Hcalls. apply andb_true_iff in Hcalls as [Hc Hcs].
  simpl in Hfresh. apply andb_true_iff in Hfresh as [Hc_fresh Hcs_fresh].
  destruct (tracking_call_step d c) as (Hen' & Hbal' & Hdom'); [done..| |done|].
  { destruct c; try done.
    apply bool_decide_eq_true in Hc_fresh. by apply not_elem_of_dom. }
  rewrite run_cons. unfold live_after. simpl. rewrite <- Hdom'.
  apply IH; [done..| |done]. by rewrite Hdom'.
Qed.

(** C1 (balance law).  Replay any sequence of [trackAllocation] /
    [untrackAllocation] calls on a fresh (hence enabled) detector, all on
    non-null addresses and none tracking an address that is still live.
    Then [currentMemoryUsage_] equals [getLeakedBytes ()], which is the sum
    of the live sizes in [size_t] arithmetic (the exact sum whenever that
    fits a [size_t]), and [getLeakCount ()] is the number of addresses
    tracked and not yet untracked. *)
Theorem balance_law (cs : list call) :
  forallb tracking_call cs = true →
  no_retrack ∅ cs = true →
  currentMemoryUsage_ (run fresh cs) = getLeakedBytes (run fresh cs)
  ∧ getLeakedBytes (run fresh cs)
    = wrap (exact_live_bytes (allocations_ (run fresh cs)))
  ∧ (is_size_t (exact_live_bytes (allocations_ (run fresh cs))) →
     currentMemoryUsage_ (run fresh cs)
     = exact_live_bytes (allocations_ (run fresh cs)))
  ∧ dom (allocations_ (run fresh cs)) = live_after ∅ cs
  ∧ getLeakCount (run fresh cs) = Z.of_nat (size (live_after ∅ cs)).
Proof.
  intros Hcalls Hfresh.
  destruct (tracking_calls_run cs fresh) as [Hbal Hdom]; try done.
  rewrite leaked_bytes_exact. repeat split; try done.
  - intros Hfits. by rewrite Hbal, wrap_small.
  - unfold getLeakCount. simpl in Hdom. rewrite dom_empty_L in Hdom.
    by rewrite <- Hdom, size_dom.
Qed.

Lemma balance_law_witness :
  forallb tracking_call balance_law_calls = true
  ∧ no_retrack ∅ balance_law_calls = true
  ∧ currentMemoryUsage_ (run fresh balance_law_calls)
  = getLeakedBytes (run fresh balance_law_calls)
  ∧ currentMemoryUsage_ (run fresh balance_law_calls)
    = exact_live_bytes (allocations_ (run fresh balance_law_calls))
  ∧ getLeakCount (run fresh balance_law_calls)
    = Z.of_nat (size (live_after ∅ balance_law_calls)).
Proof.
  split; [reflexivity|]. split; [vm_compute; reflexivity|].
  destruct (balance_law balance_law_calls)
    as (Hscan & _ & Hexact & _ & Hcount);
    [reflexivity | vm_compute; reflexivity |].
  split; [exact Hscan|]. split; [|exact Hcount].
  apply Hexact. vm_compute. split; [discriminate | reflexivity].
Defined.

(** ** Tracking an address that is still live *)

Lemma subscript_add_same m k d :
  subscript (subscript_add m k d) k = wrap (subscript m k + d).
Proof. unfold subscript, subscript_add. by rewrite lookup_insert_eq. Qed.

Lemma subscript_add_other m k k' d :
  k ≠ k' → subscript_add m k d !! k' = m !! k'.
Proof. intros Hne. unfold subscript_add. by rewrite lookup_insert_ne. Qed.

Lemma subscript_sub_same m k d :
  subscript (subscript_sub m k d) k = wrap (subscript m k - d).
Proof. unfold subscript, subscript_sub. by rewrite lookup_insert_eq. Qed.

Lemma subscript_sub_other m k k' d :
  k ≠ k' → subscript_sub m k d !! k' = m !! k'.
Proof. intros Hne. unfold subscript_sub. by rewrite lookup_insert_ne. Qed.

(** C2 (overwrite hazard).  When [ptr] is live with record [old] and the
    detector is enabled, tracking [ptr] again replaces the record by one
    stamped with the new clock reading, adds the new size to
    [currentMemoryUsage_] and to the total of the new category, and
    subtracts nothing: every other category total, the one of [old]
    included, is unchanged.  The full scan loses the old size, so the gap
    between the running counter and the scan grows by exactly the old
    size. *)
Theorem retrack_double_counts d ptr sz f l func cat now old :
  enabled_ d = true →
  ptr ≠ nullptr →
  allocations_ d !! ptr = Some old →
  allocations_ (trackAllocation d ptr sz f l func cat now)
  = <[ptr := AllocationInfo.make ptr sz f l func cat now]> (allocations_ d)
  ∧ AllocationInfo.timestamp <$>
      allocations_ (trackAllocation d ptr sz f l func cat now) !! ptr
    = Some now
  ∧ currentMemoryUsage_ (trackAllocation d ptr sz f l func cat now)
    = wrap (currentMemoryUsage_ d + sz)
  ∧ subscript (categoryStats_ (trackAllocation d ptr sz f l func cat now)) cat
    = wrap (subscript (categoryStats_ d) cat + sz)
  ∧ (∀ k, k ≠ cat →
       categoryStats_ (trackAllocation d ptr sz f l func cat now) !! k
       = categoryStats_ d !! k)
  ∧ getLeakedBytes (trackAllocation d ptr sz f l func cat now)
    = wrap (getLeakedBytes d - AllocationInfo.size old + sz)
  ∧ wrap (currentMemoryUsage_ (trackAllocation d ptr sz f l func cat now)
          - getLeakedBytes (trackAllocation d ptr sz f l func cat now))
    = wrap (currentMemoryUsage_ d - getLeakedBytes d
            + AllocationInfo.size old).
Proof.
  intros Hen Hptr Hlive.
  assert (getLeakedBytes (trackAllocation d ptr sz f l func cat now)
          = wrap (getLeakedBytes d - AllocationInfo.size old + sz)) as Hscan.
  { rewrite !leaked_bytes_exact, track_effective by done. simpl.
    rewrite (exact_live_bytes_overwrite _ ptr old) by done. simpl.
    replace (wrap (exact_live_bytes (allocations_ d))
             - AllocationInfo.size old + sz)
      with (wrap (exact_live_bytes (allocations_ d))
            + (sz - AllocationInfo.size old)) by lia.
    rewrite wrap_add_l. f_equal. lia. }
  rewrite Hscan, track_effective by done. simpl.
  repeat split.
  - by rewrite lookup_insert_eq.
  - apply subscript_add_same.
  - intros k Hk. by apply subscript_add_other.
  - rewrite wrap_sub_l, wrap_sub_r. f_equal. lia.
Qed.

Lemma retrack_double_counts_witness :
  enabled_ (run fresh [Track 1 100 "a.cpp" 10 "f" "a" 0]) = true
  ∧ 1 ≠ nullptr
  ∧ allocations_ (run fresh [Track 1 100 "a.cpp" 10 "f" "a" 0]) !! 1
    = Some (AllocationInfo.make 1 100 "a.cpp" 10 "f" "a" 0)
  ∧ currentMemoryUsage_
      (trackAllocation (run fresh [Track 1 100 "a.cpp" 10 "f" "a" 0])
         1 50 "b.cpp" 20 "g" "b" 7)
    = wrap (100 + 50)
  ∧ getLeakedBytes
      (trackAllocation (run fresh [Track 1 100 "a.cpp" 10 "f" "a" 0])
         1 50 "b.cpp" 20 "g" "b" 7)
    = wrap (100 - 100 + 50).
Proof.
  split; [reflexivity|]. split; [discriminate|]. split; [reflexivity|].
  destruct (retrack_double_counts
              (run fresh [Track 1 100 "a.cpp" 10 "f" "a" 0])
              1 50 "b.cpp" 20 "g" "b" 7
              (AllocationInfo.make 1 100 "a.cpp" 10 "f" "a" 0))
    as (_ & _ & Hcur & _ & _ & Hscan & _);
    [reflexivity | discriminate | reflexivity |].
  split; [exact Hcur | exact Hscan].
Defined.

(** ** Calls that change nothing *)

(** C4 (unknown-address untrack).  Untracking an address without a live
    record returns the detector unchanged (the function is total: there is
    no error path), and a second untrack of the same address changes
    nothing after the first, whatever the state. *)
Theorem untrack_unknown_noop d ptr :
  (allocations_ d !! ptr = None → untrackAllocation d ptr = d)
  ∧ untrackAllocation (untrackAllocation d ptr) ptr = untrackAllocation d ptr.
Proof.
  split; [apply untrack_absent|].
  destruct (negb (enabled_ d) || (ptr =? nullptr)) eqn:Hguard.
  - unfold untrackAllocation. by rewrite !Hguard.
  - destruct (allocations_ d !! ptr) as [info|] eqn:Hlive.
    + apply untrack_absent. unfold untrackAllocation.
      rewrite Hguard, Hlive. simpl. apply lookup_delete_eq.
    + by rewrite !(untrack_absent d ptr) by done.
Qed.

Lemma untrack_unknown_noop_witness :
  allocations_ fresh !! 9 = None
  ∧ untrackAllocation fresh 9 = fresh
  ∧ untrackAllocation
      (untrackAllocation (run fresh [Track 1 100 "a.cpp" 10 "f" "a" 0]) 1) 1
    = untrackAllocation (run fresh [Track 1 100 "a.cpp" 10 "f" "a" 0]) 1.
Proof.
  split; [reflexivity|]. split.
  - apply (proj1 (untrack_unknown_noop fresh 9)). reflexivity.
  - apply (proj2 (untrack_unknown_noop
                    (run fresh [Track 1 100 "a.cpp" 10 "f" "a" 0]) 1)).
Defined.

(** C10 (null address).  In every state, enabled or not, a
    [trackAllocation] or [untrackAllocation] on [nullptr] returns the
    detector unchanged: live map and all counters alike. *)
Theorem null_address_noop d sz f l func cat now :
  trackAllocation d nullptr sz f l func cat now = d
  ∧ untrackAllocation d nullptr = d.
Proof.
  unfold trackAllocation, untrackAllocation.
  replace (nullptr =? nullptr) with true by reflexivity.
  by rewrite orb_true_r.
Qed.

Lemma disabled_step d c :
  enabled_ d = false → site_call c = true → step d c = d.
Proof.
  intros Hoff Hcall. destruct c; try done; simpl.
  - unfold trackAllocation. by rewrite Hoff.
  - unfold untrackAllocation. by rewrite Hoff.
Qed.

(** C5 (disabled no-op).  While [enabled_] is false, any sequence of
    [trackAllocation] and [untrackAllocation] calls returns the very same
    detector: live map, leak count, current and peak usage and category
    totals are all as before. *)
Theorem disabled_noop d (cs : list call) :
  enabled_ d = false →
  forallb site_call cs = true →
  run d cs = d
  ∧ getLeakCount (run d cs) = getLeakCount d
  ∧ currentMemoryUsage_ (run d cs) = currentMemoryUsage_ d
  ∧ peakMemoryUsage_ (run d cs) = peakMemoryUsage_ d
  ∧ allocations_ (run d cs) = allocations_ d
  ∧ categoryStats_ (run d cs) = categoryStats_ d.
Proof.
  intros Hoff Hcalls.
  assert (run d cs = d) as ->; [|done].
  induction cs as [|c cs IH]; [done|].
  simpl in Hcalls. apply andb_true_iff in Hcalls as [Hc Hcs].
  rewrite run_cons, disabled_step by done. by apply IH.
Qed.

Lemma disabled_noop_witness :
  enabled_ (setEnabled (run fresh balance_law_calls) false) = false
  ∧ forallb site_call balance_law_calls = true
  ∧ run (setEnabled (run fresh balance_law_calls) false) balance_law_calls
    = setEnabled (run fresh balance_law_calls) false.
Proof.
  split; [reflexivity|]. split; [reflexivity|].
  apply (disabled_noop (setEnabled (run fresh balance_law_calls) false)
           balance_law_calls); reflexivity.
Defined.

(** C9 (clear).  [clear ()] empties the live map, zeroes
    [currentMemoryUsage_], leaves no category total (every category reads
    zero) and keeps [peakMemoryUsage_] and the enabled switch as they
    were. *)
Theorem clear_keeps_peak d :
  allocations_ (clear d) = ∅
  ∧ getLeakCount (clear d) = 0
  ∧ getLeakedBytes (clear d) = 0
  ∧ currentMemoryUsage_ (clear d) = 0
  ∧ categoryStats_ (clear d) = ∅
  ∧ (∀ k, subscript (categoryStats_ (clear d)) k = 0)
  ∧ peakMemoryUsage_ (clear d) = peakMemoryUsage_ d
  ∧ enabled_ (clear d) = enabled_ d.
Proof.
  repeat split.
Qed.

(** ** The snapshot of [getStats] *)

Lemma group_sum_nil key k : group_sum key [] k = None.
Proof. reflexivity. Qed.

Lemma group_sum_cons key info l k :
  group_sum key (info :: l) k
  = if decide (key info = k)
    then Some (wrap (default 0 (group_sum key l k) + AllocationInfo.size info))
    else group_sum key l k.
Proof.
  unfold group_sum. rewrite filter_cons.
  destruct (decide (key info = k)) as [Hk|Hk]; [|done].
  destruct (filter _ l) as [|info' sel]; simpl.
  - f_equal. f_equal. lia.
  - f_equal. rewrite wrap_add_l. f_equal. lia.
Qed.

Lemma group_fold_lookup (l : list (Z * AllocationInfo.t)) k :
  (foldr (uncurry group_step) (∅, ∅) l).1 !! k
  = group_sum AllocationInfo.category l.*2 k
  ∧ (foldr (uncurry group_step) (∅, ∅) l).2 !! k
    = group_sum AllocationInfo.file l.*2 k.
Proof.
  revert k. induction l as [|[ptr info] l IH]; intros k.
  - split; apply lookup_empty.
  - rewrite fmap_cons, !group_sum_cons. simpl.
    unfold subscript_add, subscript. rewrite !lookup_insert.
    split.
    + destruct (decide (AllocationInfo.category info = k)) as [<-|Hk];
        [|apply IH].
      by rewrite (proj1 (IH _)).
    + destruct (decide (AllocationInfo.file info = k)) as [<-|Hk];
        [|apply IH].
      by rewrite (proj2 (IH _)).
Qed.

Lemma subscript_add_comm m k1 d1 k2 d2 :
  subscript_add (subscript_add m k1 d1) k2 d2
  = subscript_add (subscript_add m k2 d2) k1 d1.
Proof.
  unfold subscript_add, subscript.
  destruct (decide (k1 = k2)) as [->|Hne].
  - rewrite !lookup_insert_eq, !insert_insert_eq. simpl.
    rewrite !wrap_add_l. do 2 f_equal. lia.
  - rewrite !lookup_insert_ne by done. by apply insert_insert_ne.
Qed.

(** The groups do not depend on the order of the walk either. *)
Lemma group_fold_perm (l1 l2 : list (Z * AllocationInfo.t)) b :
  l1 ≡ₚ l2 →
  foldr (uncurry group_step) b l1 = foldr (uncurry group_step) b l2.
Proof.
  intros Hperm. apply (foldr_permutation (=) _ b); [|done].
  intros j1 [p1 i1] j2 [p2 i2] [cats files] _ _ _.
  unfold group_step. simpl. f_equal; apply subscript_add_comm.
Qed.

(** C6 (snapshot grouping).  In every state the two group maps of
    [getStats ()] are the group-by sums of the live records, by category
    and by file: an entry per group that has a live record, holding the
    sum of its sizes in [size_t] arithmetic.  They are functions of the
    live map alone: two detectors with the same live map give the same
    groups, whatever [categoryStats_] and the counters hold. *)
Theorem stats_group_live_records d now :
  (∀ k, leaksByCategory (getStats d now) !! k
        = group_sum AllocationInfo.category (live_records d) k)
  ∧ (∀ k, leaksByFile (getStats d now) !! k
          = group_sum AllocationInfo.file (live_records d) k)
  ∧ (∀ d' now', allocations_ d' = allocations_ d →
       leaksByCategory (getStats d' now') = leaksByCategory (getStats d now)
       ∧ leaksByFile (getStats d' now') = leaksByFile (getStats d now)).
Proof.
  unfold getStats, live_records. simpl. rewrite map_fold_foldr.
  split; [|split].
  - intros k. apply group_fold_lookup.
  - intros k. apply group_fold_lookup.
  - intros d' now' ->. by rewrite map_fold_foldr.
Qed.

(** After a second [trackAllocation] on a live address the running
    category totals keep the overwritten 100 bytes of category "a"; the
    snapshot has no entry for "a" and the exact 50 bytes of "b". *)
Example stats_ignore_drift :
  categoryStats_ (run fresh retrack_calls) !! "a"%string = Some 100
  ∧ leaksByCategory (getStats (run fresh retrack_calls) 9) !! "a"%string = None
  ∧ leaksByCategory (getStats (run fresh retrack_calls) 9) !! "b"%string
    = Some 50
  ∧ leaksByFile (getStats (run fresh retrack_calls) 9) !! "b.cpp"%string
    = Some 50.
Proof. vm_compute. done. Qed.

(** ** The peak *)

Lemma peak_monotone_step d c :
  c ≠ ResetStats → peakMemoryUsage_ d <= peakMemoryUsage_ (step d c).
Proof.
  intros Hc. destruct c as [ptr sz f l func cat now|ptr| | |]; simpl; try done.
  - unfold trackAllocation.
    destruct (negb (enabled_ d) || (ptr =? nullptr)); [done|]. simpl.
    destruct (Z.gtb_spec (wrap (currentMemoryUsage_ d + sz))
                (peakMemoryUsage_ d)); lia.
  - unfold untrackAllocation.
    destruct (negb (enabled_ d) || (ptr =? nullptr)); [done|].
    by destruct (allocations_ d !! ptr).
Qed.

Lemma fresh_sound : counters_sound fresh.
Proof.
  unfold counters_sound. simpl. rewrite exact_live_bytes_empty.
  split; [apply map_Forall_empty|]. pose proof SIZE_MOD_pos. lia.
Qed.

Lemma sound_nonneg d : counters_sound d → 0 <= currentMemoryUsage_ d.
Proof.
  intros (Hsizes & Hsum & _). apply exact_live_bytes_nonneg in Hsizes. lia.
Qed.

Lemma sound_track d ptr sz f l func cat now :
  counters_sound d →
  enabled_ d = true → ptr ≠ nullptr →
  0 <= sz → currentMemoryUsage_ d + sz < SIZE_MOD →
  counters_sound (trackAllocation d ptr sz f l func cat now).
Proof.
  intros Hsound Hen Hptr Hsz Hfit.
  pose proof (sound_nonneg d Hsound) as Hcur.
  destruct Hsound as (Hsizes & Hsum & Hlt & Hpeak).
  rewrite track_effective by done. unfold counters_sound. simpl.
  rewrite wrap_small by (unfold is_size_t; lia).
  split; [by apply map_Forall_insert_2|].
  split; [|split; [done|]].
  - destruct (allocations_ d !! ptr) as [old|] eqn:Hlive.
    + rewrite (exact_live_bytes_overwrite _ ptr old) by done. simpl.
      pose proof (map_Forall_lookup_1 _ _ _ _ Hsizes Hlive) as Hold.
      simpl in Hold. lia.
    + rewrite exact_live_bytes_fresh by done. simpl. lia.
  - destruct (Z.gtb_spec (currentMemoryUsage_ d + sz) (peakMemoryUsage_ d));
      lia.
Qed.

Lemma sound_untrack d ptr :
  counters_sound d → counters_sound (untrackAllocation d ptr).
Proof.
  intros Hsound. unfold untrackAllocation.
  destruct (negb (enabled_ d) || (ptr =? nullptr)); [done|].
  destruct (allocations_ d !! ptr) as [info|] eqn:Hlive; [|done].
  destruct Hsound as (Hsizes & Hsum & Hlt & Hpeak).
  pose proof (map_Forall_lookup_1 _ _ _ _ Hsizes Hlive) as Hinfo.
  simpl in Hinfo.
  pose proof (map_Forall_delete _ _ ptr Hsizes) as Hrest.
  pose proof (exact_live_bytes_nonneg _ Hrest) as Hrest_sum.
  rewrite (exact_live_bytes_delete _ ptr info) in Hrest_sum by done.
  unfold counters_sound. simpl.
  rewrite (exact_live_bytes_delete _ ptr info) by done.
  rewrite wrap_small by (unfold is_size_t; lia).
  split; [done|]. lia.
Qed.

Lemma sound_step d c :
  counters_sound d → no_overflow d [c] = true → counters_sound (step d c).
Proof.
  intros Hsound Hfit.
  destruct c as [ptr sz f l func cat now|ptr| | |]; simpl in *.
  - unfold trackAllocation in *.
    destruct (enabled_ d) eqn:Hen; [|done]. simpl in *.
    destruct (Z.eqb_spec ptr nullptr) as [Hnull|Hptr]; [done|].
    rewrite andb_true_r in Hfit. apply andb_true_iff in Hfit as [Hsz Hlt].
    apply Z.leb_le in Hsz. apply Z.ltb_lt in Hlt.
    pose proof (sound_track d ptr sz f l func cat now Hsound Hen Hptr Hsz Hlt)
      as Hnext.
    unfold trackAllocation in Hnext. rewrite Hen in Hnext. simpl in Hnext.
    by destruct (Z.eqb_spec ptr nullptr).
  - by apply sound_untrack.
  - pose proof (sound_nonneg d Hsound).
    destruct Hsound as (_ & _ & _ & Hpeak).
    unfold counters_sound. simpl. rewrite exact_live_bytes_empty.
    split; [apply map_Forall_empty|]. pose proof SIZE_MOD_pos. lia.
  - destruct Hsound as (Hsizes & Hsum & Hlt & _).
    unfold counters_sound. simpl. repeat split; [done..|]. lia.
  - exact Hsound.
Qed.

Lemma sound_run cs : ∀ d,
  counters_sound d → no_overflow d cs = true → counters_sound (run d cs).
Proof.
  induction cs as [|c cs IH]; intros d Hsound Hfit; [done|].
  rewrite run_cons. simpl in Hfit. apply andb_true_iff in Hfit as [Hc Hcs].
  apply IH; [|done]. apply sound_step; [done|]. simpl. by rewrite Hc.
Qed.

(** C3 as the source has it.  Two allocations of 2^63 and 2^63+5 bytes
    wrap [currentMemoryUsage_] to 5 with the peak at 2^63; untracking the
    first wraps the counter back up to 2^63+5, above the peak. *)
Lemma peak_below_current :
  peakMemoryUsage_ (run fresh wrapping_calls)
  < currentMemoryUsage_ (run fresh wrapping_calls).
Proof. vm_compute. reflexivity. Qed.

(** C3 (peak, amended).  No operation other than [resetStats] lowers
    [peakMemoryUsage_], in any state, and [resetStats] sets it to
    [currentMemoryUsage_].  On a fresh detector, after every sequence of
    operations in which no effective [trackAllocation] carries the running
    counter past [SIZE_MAX], [peakMemoryUsage_ >= currentMemoryUsage_]. *)
Theorem peak_covers_current d c (cs : list call) :
  (c ≠ ResetStats → peakMemoryUsage_ d <= peakMemoryUsage_ (step d c))
  ∧ peakMemoryUsage_ (resetStats d) = currentMemoryUsage_ d
  ∧ (no_overflow fresh cs = true →
     currentMemoryUsage_ (run fresh cs) <= peakMemoryUsage_ (run fresh cs)).
Proof.
  split; [apply peak_monotone_step|]. split; [done|].
  intros Hfit. by apply (sound_run cs fresh fresh_sound) in Hfit as (_ & _ & _ & ?).
Qed.

Lemma peak_covers_current_witness :
  Untrack 1 ≠ ResetStats
  ∧ no_overflow fresh scenario_D = true
  ∧ peakMemoryUsage_ (run fresh [Track 1 4096 "a.cpp" 10 "f" "general" 0])
    <= peakMemoryUsage_
         (step (run fresh [Track 1 4096 "a.cpp" 10 "f" "general" 0])
            (Untrack 1))
  ∧ currentMemoryUsage_ (run fresh scenario_D)
    <= peakMemoryUsage_ (run fresh scenario_D).
Proof.
  split; [discriminate|]. split; [reflexivity|]. split.
  - apply (proj1 (peak_covers_current
                    (run fresh [Track 1 4096 "a.cpp" 10 "f" "general" 0])
                    (Untrack 1) scenario_D)).
    discriminate.
  - apply (proj2 (proj2 (peak_covers_current fresh (Untrack 1) scenario_D))).
    reflexivity.
Defined.

Example scenario_D_values :
  peakMemoryUsage_ (run fresh scenario_D) = 4096
  ∧ currentMemoryUsage_ (run fresh scenario_D) = 1024.
Proof. vm_compute. done. Qed.

(** ** Subtracting more than a counter holds *)

(** C8 as the source has it.  With category "a" and the running counter
    both holding 5, untracking a record of 2^63 bytes leaves neither of
    them negative: both read 2^63+5. *)
Lemma drift_is_not_negative :
  subscript (categoryStats_ (run fresh wrapped_pair)) "a" = 5
  ∧ currentMemoryUsage_ (run fresh wrapped_pair) = 5
  ∧ AllocationInfo.size <$> allocations_ (run fresh wrapped_pair) !! 1
    = Some (2 ^ 63)
  ∧ ¬ subscript (categoryStats_ (untrackAllocation (run fresh wrapped_pair) 1))
        "a" < 0
  ∧ ¬ currentMemoryUsage_ (untrackAllocation (run fresh wrapped_pair) 1) < 0.
Proof. vm_compute. repeat split; discriminate. Qed.

(** C8 (amended).  The counters are [size_t].  Untracking a live record
    leaves [currentMemoryUsage_] and the record's category total inside
    [0, 2^64): they are never negative.  When the record's size exceeds
    what a counter holds, the counter is not clamped at zero either: it
    wraps to [held - size + 2^64], which is positive. *)
Theorem untrack_wraps_unsigned d ptr info :
  enabled_ d = true →
  ptr ≠ nullptr →
  allocations_ d !! ptr = Some info →
  is_size_t (AllocationInfo.size info) →
  is_size_t (currentMemoryUsage_ d) →
  is_size_t (subscript (categoryStats_ d) (AllocationInfo.category info)) →
  is_size_t (currentMemoryUsage_ (untrackAllocation d ptr))
  ∧ is_size_t (subscript (categoryStats_ (untrackAllocation d ptr))
                 (AllocationInfo.category info))
  ∧ (currentMemoryUsage_ d < AllocationInfo.size info →
     currentMemoryUsage_ (untrackAllocation d ptr)
     = currentMemoryUsage_ d - AllocationInfo.size info + SIZE_MOD
     ∧ 0 < currentMemoryUsage_ (untrackAllocation d ptr))
  ∧ (subscript (categoryStats_ d) (AllocationInfo.category info)
     < AllocationInfo.size info →
     subscript (categoryStats_ (untrackAllocation d ptr))
       (AllocationInfo.category info)
     = subscript (categoryStats_ d) (AllocationInfo.category info)
       - AllocationInfo.size info + SIZE_MOD
     ∧ 0 < subscript (categoryStats_ (untrackAllocation d ptr))
             (AllocationInfo.category info)).
Proof.
  intros Hen Hptr Hlive Hsz Hcur Hcat.
  rewrite (untrack_live d ptr info) by done. simpl.
  rewrite subscript_sub_same.
  split; [apply wrap_range|]. split; [apply wrap_range|].
  split; intros Hlt; rewrite wrap_borrow by done;
    unfold is_size_t in *; lia.
Qed.

Lemma untrack_wraps_unsigned_witness :
  enabled_ (run fresh wrapped_pair) = true
  ∧ 1 ≠ nullptr
  ∧ currentMemoryUsage_ (run fresh wrapped_pair) < 2 ^ 63
  ∧ currentMemoryUsage_ (untrackAllocation (run fresh wrapped_pair) 1)
    = currentMemoryUsage_ (run fresh wrapped_pair) - 2 ^ 63 + SIZE_MOD
  ∧ subscript (categoryStats_ (untrackAllocation (run fresh wrapped_pair) 1))
      "a"
    = subscript (categoryStats_ (run fresh wrapped_pair)) "a"
      - 2 ^ 63 + SIZE_MOD.
Proof.
  split; [reflexivity|]. split; [discriminate|]. split; [reflexivity|].
  destruct (untrack_wraps_unsigned (run fresh wrapped_pair) 1
              (AllocationInfo.make 1 (2 ^ 63) "a.cpp" 10 "f" "a" 0))
    as (_ & _ & Hcur & Hcat);
    [reflexivity | discriminate | reflexivity
    | vm_compute; split; [discriminate | reflexivity]
    | vm_compute; split; [discriminate | reflexivity]
    | vm_compute; split; [discriminate | reflexivity] |].
  split.
  - apply Hcur. reflexivity.
  - apply Hcat. reflexivity.
Defined.

(** ** Callers without a lock *)

(** Run without interruption, the six steps of a caller are
    [trackAllocation]. *)
Lemma alone_is_trackAllocation d a :
  alone 6 a d AtGuard = (track_with d a, Returned).
Proof.
  unfold track_with, trackAllocation. simpl.
  destruct (negb (enabled_ d) || (arg_ptr a =? nullptr)); reflexivity.
Qed.

(** C7 (serialisation).  Two threads track 8 bytes each at two addresses
    of a fresh detector, and both read [currentMemoryUsage_] before either
    writes it.  Both calls return and both records are live (16 bytes by
    the scan), but [currentMemoryUsage_] and the peak read 8: a state that
    neither order of the two calls produces. *)
Theorem unlocked_tracks_lose_update :
  (interleave caller_1 caller_2 fresh both_read_first).1.2 = Returned
  ∧ (interleave caller_1 caller_2 fresh both_read_first).2 = Returned
  ∧ getLeakCount (interleave caller_1 caller_2 fresh both_read_first).1.1 = 2
  ∧ getLeakedBytes (interleave caller_1 caller_2 fresh both_read_first).1.1
    = 16
  ∧ currentMemoryUsage_
      (interleave caller_1 caller_2 fresh both_read_first).1.1 = 8
  ∧ peakMemoryUsage_
      (interleave caller_1 caller_2 fresh both_read_first).1.1 = 8
  ∧ currentMemoryUsage_ (track_with (track_with fresh caller_1) caller_2) = 16
  ∧ currentMemoryUsage_ (track_with (track_with fresh caller_2) caller_1) = 16.
Proof. vm_compute. done. Qed.

(** * Further properties of the detector *)

(** ** Invariants of every call sequence *)

Lemma balanced_step d c :
  currentMemoryUsage_ d = wrap (exact_live_bytes (allocations_ d)) →
  no_overwrite d [c] = true →
  currentMemoryUsage_ (step d c)
  = wrap (exact_live_bytes (allocations_ (step d c))).
Proof.
  intros Hbal Hfree.
  destruct c as [ptr sz f l func cat now|ptr| | |]; simpl in *; try done.
  - unfold trackAllocation.
    destruct (negb (enabled_ d) || (ptr =? nullptr)); [done|]. simpl.
    rewrite andb_true_r in Hfree. apply bool_decide_eq_true in Hfree.
    rewrite exact_live_bytes_fresh by done. simpl.
    by rewrite Hbal, wrap_add_l.
  - unfold untrackAllocation.
    destruct (negb (enabled_ d) || (ptr =? nullptr)); [done|].
    destruct (allocations_ d !! ptr) as [info|] eqn:Hlive; [|done]. simpl.
    rewrite (exact_live_bytes_delete _ ptr info) by done.
    by rewrite Hbal, wrap_sub_l.
Qed.

Lemma balanced_run cs : ∀ d,
  currentMemoryUsage_ d = wrap (exact_live_bytes (allocations_ d)) →
  no_overwrite d cs = true →
  currentMemoryUsage_ (run d cs)
  = wrap (exact_live_bytes (allocations_ (run d cs))).
Proof.
  induction cs as [|c cs IH]; intros d Hbal Hfree; [done|].
  rewrite run_cons. simpl in Hfree.
  apply andb_true_iff in Hfree as [Hc Hcs].
  apply IH; [|done]. apply balanced_step; [done|]. simpl. by rewrite Hc.
Qed.

(** X1.  Replay any calls at all on a fresh detector: tracks, untracks,
    null addresses, [setEnabled], [clear], [resetStats].  As long as no
    effective [trackAllocation] lands on an address the live map holds,
    [currentMemoryUsage_] equals [getLeakedBytes ()]; if moreover the
    running counter never overflows, it is the exact sum of the live
    sizes. *)
Theorem balance_under_all_calls (cs : list call) :
  no_overwrite fresh cs = true →
  currentMemoryUsage_ (run fresh cs) = getLeakedBytes (run fresh cs)
  ∧ (no_overflow fresh cs = true →
     currentMemoryUsage_ (run fresh cs)
     = exact_live_bytes (allocations_ (run fresh cs))).
Proof.
  intros Hfree.
  pose proof (balanced_run cs fresh eq_refl Hfree) as Hbal.
  split; [by rewrite leaked_bytes_exact|].
  intros Hfit.
  destruct (sound_run cs fresh fresh_sound Hfit) as (Hsizes & Hsum & Hlt & _).
  apply exact_live_bytes_nonneg in Hsizes.
  rewrite Hbal. apply wrap_small. unfold is_size_t. lia.
Qed.

Lemma balance_under_all_calls_witness :
  no_overwrite fresh mixed_calls = true
  ∧ no_overflow fresh mixed_calls = true
  ∧ currentMemoryUsage_ (run fresh mixed_calls)
    = getLeakedBytes (run fresh mixed_calls)
  ∧ currentMemoryUsage_ (run fresh mixed_calls)
    = exact_live_bytes (allocations_ (run fresh mixed_calls)).
Proof.
  split; [vm_compute; reflexivity|]. split; [reflexivity|].
  destruct (balance_under_all_calls mixed_calls) as [Hscan Hexact];
    [vm_compute; reflexivity|].
  split; [exact Hscan|]. apply Hexact. reflexivity.
Defined.

(** X2.  Overwrites allowed: while no effective [trackAllocation] carries
    the running counter past [SIZE_MAX], [currentMemoryUsage_] is at least
    the exact sum of the live sizes.  The counter can over-report what is
    live, never under-report it. *)
Theorem usage_covers_live_bytes (cs : list call) :
  no_overflow fresh cs = true →
  0 <= exact_live_bytes (allocations_ (run fresh cs))
  ∧ exact_live_bytes (allocations_ (run fresh cs))
    <= currentMemoryUsage_ (run fresh cs)
  ∧ getLeakedBytes (run fresh cs) <= currentMemoryUsage_ (run fresh cs).
Proof.
  intros Hfit.
  destruct (sound_run cs fresh fresh_sound Hfit) as (Hsizes & Hsum & Hlt & _).
  apply exact_live_bytes_nonneg in Hsizes.
  rewrite leaked_bytes_exact, wrap_small by (unfold is_size_t; lia). done.
Qed.

Lemma usage_covers_live_bytes_witness :
  no_overflow fresh retrack_calls = true
  ∧ exact_live_bytes (allocations_ (run fresh retrack_calls)) = 50
  ∧ currentMemoryUsage_ (run fresh retrack_calls) = 150
  ∧ getLeakedBytes (run fresh retrack_calls)
    <= currentMemoryUsage_ (run fresh retrack_calls).
Proof.
  split; [reflexivity|]. split; [vm_compute; reflexivity|].
  split; [reflexivity|].
  apply (usage_covers_live_bytes retrack_calls). reflexivity.
Defined.

Lemma records_keyed_step d c : records_keyed d → records_keyed (step d c).
Proof.
  unfold records_keyed. intros Hkeyed.
  destruct c as [ptr sz f l func cat now|ptr| | |]; simpl; try done.
  - unfold trackAllocation.
    destruct (negb (enabled_ d) || (ptr =? nullptr)) eqn:Hguard; [done|].
    simpl. apply map_Forall_insert_2; [|done].
    apply orb_false_iff in Hguard as [_ Hptr]. apply Z.eqb_neq in Hptr. done.
  - unfold untrackAllocation.
    destruct (negb (enabled_ d) || (ptr =? nullptr)); [done|].
    destruct (allocations_ d !! ptr); [|done]. simpl.
    by apply map_Forall_delete.
Qed.

Lemma records_keyed_run cs : ∀ d, records_keyed d → records_keyed (run d cs).
Proof.
  induction cs as [|c cs IH]; intros d Hkeyed; [done|].
  rewrite run_cons. by apply IH, records_keyed_step.
Qed.

(** X3.  After any call sequence on a fresh detector, every live record
    sits under the address it carries in [pointer], is flagged [tracked],
    and no record sits under the null address. *)
Theorem live_records_carry_their_key (cs : list call) ptr info :
  allocations_ (run fresh cs) !! ptr = Some info →
  AllocationInfo.pointer info = ptr
  ∧ AllocationInfo.tracked info = true
  ∧ ptr ≠ nullptr.
Proof.
  intros Hlive.
  assert (records_keyed (run fresh cs)) as Hkeyed.
  { apply records_keyed_run. apply map_Forall_empty. }
  exact (map_Forall_lookup_1 _ _ _ _ Hkeyed Hlive).
Qed.

Lemma live_records_carry_their_key_witness :
  allocations_ (run fresh mixed_calls) !! 4
  = Some (AllocationInfo.make 4 50 "a.cpp" 50 "f" "a" 4)
  ∧ AllocationInfo.pointer (AllocationInfo.make 4 50 "a.cpp" 50 "f" "a" 4) = 4
  ∧ AllocationInfo.tracked (AllocationInfo.make 4 50 "a.cpp" 50 "f" "a" 4)
    = true
  ∧ 4 ≠ nullptr.
Proof.
  split; [vm_compute; reflexivity|].
  apply (live_records_carry_their_key mixed_calls 4
           (AllocationInfo.make 4 50 "a.cpp" 50 "f" "a" 4)).
  vm_compute. reflexivity.
Defined.

Lemma counters_in_range_step d c :
  counters_in_range d → counters_in_range (step d c).
Proof.
  intros (Hcur & Hpeak & Hcats). unfold counters_in_range.
  destruct c as [ptr sz f l func cat now|ptr| | |]; simpl; try done.
  - unfold trackAllocation.
    destruct (negb (enabled_ d) || (ptr =? nullptr)); [done|]. simpl.
    split; [apply wrap_range|]. split.
    + destruct (wrap (currentMemoryUsage_ d + sz) >? peakMemoryUsage_ d);
        [apply wrap_range | done].
    + apply map_Forall_insert_2; [apply wrap_range | done].
  - unfold untrackAllocation.
    destruct (negb (enabled_ d) || (ptr =? nullptr)); [done|].
    destruct (allocations_ d !! ptr); [|done]. simpl.
    split; [apply wrap_range|]. split; [done|].
    apply map_Forall_insert_2; [apply wrap_range | done].
Qed.

(** The embedding keeps the counters in the range of their type: after any
    call sequence on a fresh detector [currentMemoryUsage_],
    [peakMemoryUsage_] and every entry of [categoryStats_] lie in
    [0, 2^64). *)
Lemma counters_stay_in_range (cs : list call) :
  is_size_t (currentMemoryUsage_ (run fresh cs))
  ∧ is_size_t (peakMemoryUsage_ (run fresh cs))
  ∧ (∀ k, is_size_t (subscript (categoryStats_ (run fresh cs)) k)).
Proof.
  assert (counters_in_range (run fresh cs)) as (Hcur & Hpeak & Hcats).
  { assert (counters_in_range fresh) as Hfresh.
    { by repeat split. }
    revert Hfresh. generalize fresh.
    induction cs as [|c cs IH]; intros d Hd; [done|].
    rewrite run_cons. by apply IH, counters_in_range_step. }
  repeat split; try apply Hcur; try apply Hpeak; unfold subscript;
    destruct (categoryStats_ (run fresh cs) !! k) as [v|] eqn:Hk; simpl;
    try done; apply (map_Forall_lookup_1 _ _ _ _ Hcats Hk).
Qed.

(** ** The category totals against the snapshot *)

Lemma group_sum_range key l k : is_size_t (default 0 (group_sum key l k)).
Proof.
  unfold group_sum. destruct (filter _ l); simpl; [done|apply wrap_range].
Qed.

Lemma group_sum_perm key (l1 l2 : list AllocationInfo.t) k :
  l1 ≡ₚ l2 → group_sum key l1 k = group_sum key l2 k.
Proof.
  induction 1 as [|info l1 l2 _ IH|info1 info2 l|l1 l2 l3 _ IH1 _ IH2].
  - done.
  - by rewrite !group_sum_cons, IH.
  - rewrite !group_sum_cons.
    destruct (decide (key info1 = k)), (decide (key info2 = k)); try done.
    simpl. rewrite !wrap_add_l. do 2 f_equal. lia.
  - by rewrite IH1.
Qed.

Lemma records_fresh (m : gmap Z AllocationInfo.t) ptr info :
  m !! ptr = None →
  (map_to_list (<[ptr := info]> m)).*2 ≡ₚ info :: (map_to_list m).*2.
Proof. intros Hfree. by rewrite map_to_list_insert. Qed.

Lemma records_delete (m : gmap Z AllocationInfo.t) ptr info :
  m !! ptr = Some info →
  (map_to_list m).*2 ≡ₚ info :: (map_to_list (delete ptr m)).*2.
Proof. intros Hlive. by rewrite <- (map_to_list_delete m ptr info). Qed.

Lemma subscript_add_read m k d k' :
  subscript (subscript_add m k d) k'
  = if decide (k = k') then wrap (subscript m k + d) else subscript m k'.
Proof.
  destruct (decide (k = k')) as [<-|Hne]; [apply subscript_add_same|].
  unfold subscript at 1. by rewrite subscript_add_other.
Qed.

Lemma subscript_sub_read m k d k' :
  subscript (subscript_sub m k d) k'
  = if decide (k = k') then wrap (subscript m k - d) else subscript m k'.
Proof.
  destruct (decide (k = k')) as [<-|Hne]; [apply subscript_sub_same|].
  unfold subscript at 1. by rewrite subscript_sub_other.
Qed.

Lemma stats_category_lookup d now k :
  leaksByCategory (getStats d now) !! k
  = group_sum AllocationInfo.category (live_records d) k.
Proof.
  unfold getStats, live_records. simpl. rewrite map_fold_foldr.
  apply group_fold_lookup.
Qed.

Lemma category_totals_step d c :
  (∀ k, subscript (categoryStats_ d) k
        = default 0 (group_sum AllocationInfo.category (live_records d) k)) →
  no_overwrite d [c] = true →
  ∀ k, subscript (categoryStats_ (step d c)) k
       = default 0
           (group_sum AllocationInfo.category (live_records (step d c)) k).
Proof.
  intros Hcats Hfree k. unfold live_records in *.
  destruct c as [ptr sz f l func cat now|ptr| | |]; simpl in *; try done.
  - unfold trackAllocation.
    destruct (negb (enabled_ d) || (ptr =? nullptr)); [done|]. simpl.
    rewrite andb_true_r in Hfree. apply bool_decide_eq_true in Hfree.
    rewrite (group_sum_perm _ _ _ _ (records_fresh _ ptr _ Hfree)).
    rewrite group_sum_cons, subscript_add_read. simpl.
    destruct (decide (cat = k)) as [<-|Hk]; [|done].
    simpl. by rewrite Hcats.
  - unfold untrackAllocation.
    destruct (negb (enabled_ d) || (ptr =? nullptr)); [done|].
    destruct (allocations_ d !! ptr) as [info|] eqn:Hlive; [|done]. simpl.
    rewrite subscript_sub_read.
    pose proof (Hcats k) as Hk. pose proof (Hcats (AllocationInfo.category info)) as Hcat.
    rewrite (group_sum_perm _ _ _ k (records_delete _ ptr info Hlive)),
      group_sum_cons in Hk.
    rewrite (group_sum_perm _ _ _ (AllocationInfo.category info)
               (records_delete _ ptr info Hlive)), group_sum_cons in Hcat.
    destruct (decide (AllocationInfo.category info = k)) as [<-|Hne];
      [|done].
    rewrite decide_True in Hcat by done. simpl in Hcat.
    rewrite Hcat, wrap_sub_l.
    replace (default 0 (group_sum AllocationInfo.category
               (map_to_list (delete ptr (allocations_ d))).*2
               (AllocationInfo.category info))
             + AllocationInfo.size info - AllocationInfo.size info)
      with (default 0 (group_sum AllocationInfo.category
               (map_to_list (delete ptr (allocations_ d))).*2
               (AllocationInfo.category info))) by lia.
    apply wrap_small, group_sum_range.
Qed.

Lemma category_totals_run cs : ∀ d,
  (∀ k, subscript (categoryStats_ d) k
        = default 0 (group_sum AllocationInfo.category (live_records d) k)) →
  no_overwrite d cs = true →
  ∀ k, subscript (categoryStats_ (run d cs)) k
       = default 0
           (group_sum AllocationInfo.category (live_records (run d cs)) k).
Proof.
  induction cs as [|c cs IH]; intros d Hd Hfree; [done|].
  rewrite run_cons. simpl in Hfree.
  apply andb_true_iff in Hfree as [Hc Hcs].
  apply IH; [|done]. apply category_totals_step; [done|]. simpl.
  by rewrite Hc.
Qed.

(** X4.  Replay any calls on a fresh detector.  As long as no effective
    [trackAllocation] lands on an address the live map holds, the running
    total [categoryStats_[k]] of every category [k] is what the snapshot
    of [getStats ()] reports for it in [leaksByCategory] (nothing, read as
    zero, when the category has no live record). *)
Theorem category_totals_match_snapshot (cs : list call) now k :
  no_overwrite fresh cs = true →
  subscript (categoryStats_ (run fresh cs)) k
  = subscript (leaksByCategory (getStats (run fresh cs) now)) k.
Proof.
  intros Hfree. unfold subscript at 2. rewrite stats_category_lookup.
  by apply category_totals_run.
Qed.

Lemma category_totals_match_snapshot_witness :
  no_overwrite fresh mixed_calls = true
  ∧ subscript (categoryStats_ (run fresh mixed_calls)) "a"
    = subscript (leaksByCategory (getStats (run fresh mixed_calls) 9)) "a".
Proof.
  split; [vm_compute; reflexivity|].
  apply (category_totals_match_snapshot mixed_calls 9 "a").
  vm_compute. reflexivity.
Defined.



(** ** The groups of the snapshot add up to its total *)

Lemma total_of_insert (m : gmap string Z) k v :
  total_of (<[k := v]> m) = total_of m - subscript m k + v.
Proof.
  unfold total_of, subscript.
  destruct (m !! k) as [old|] eqn:Hk; simpl.
  - rewrite <- insert_delete_eq.
    rewrite map_fold_insert_L; [| intros; lia | apply lookup_delete_eq].
    rewrite (map_fold_delete_L _ _ k old m); [lia | intros; lia | done].
  - rewrite map_fold_insert_L; [lia | intros; lia | done].
Qed.

Lemma total_of_subscript_add m k d :
  wrap (total_of (subscript_add m k d)) = wrap (total_of m + d).
Proof.
  unfold subscript_add. rewrite total_of_insert, wrap_add_r. f_equal. lia.
Qed.

Lemma group_fold_total (l : list (Z * AllocationInfo.t)) :
  wrap (total_of (foldr (uncurry group_step) (∅, ∅) l).1)
  = foldr (uncurry add_size) 0 l
  ∧ wrap (total_of (foldr (uncurry group_step) (∅, ∅) l).2)
    = foldr (uncurry add_size) 0 l.
Proof.
  induction l as [|[ptr info] l [IH1 IH2]]; [done|].
  simpl. rewrite !total_of_subscript_add, <- IH1, <- IH2 at 1.
  unfold add_size. by rewrite !wrap_add_l.
Qed.

(** X6.  In every state the entries of [leaksByCategory] add up to
    [totalLeakedBytes] in [size_t] arithmetic, and so do the entries of
    [leaksByFile]: each partition of the live records accounts for the
    whole total. *)
Theorem stats_groups_add_up d now :
  wrap (total_of (leaksByCategory (getStats d now)))
  = totalLeakedBytes (getStats d now)
  ∧ wrap (total_of (leaksByFile (getStats d now)))
    = totalLeakedBytes (getStats d now).
Proof.
  unfold getStats, getLeakedBytes. simpl. rewrite !map_fold_foldr.
  apply group_fold_total.
Qed.

(** ** The peak as a high-water mark *)

Lemma peak_step_max d c :
  counters_sound (step d c) → c ≠ ResetStats →
  peakMemoryUsage_ (step d c)
  = Z.max (peakMemoryUsage_ d) (currentMemoryUsage_ (step d c)).
Proof.
  intros (_ & _ & _ & Hpeak) Hc.
  destruct c as [ptr sz f l func cat now|ptr| | |]; try done;
    simpl in *.
  - unfold trackAllocation in *.
    destruct (negb (enabled_ d) || (ptr =? nullptr)); [lia|]. simpl in *.
    destruct (Z.gtb_spec (wrap (currentMemoryUsage_ d + sz))
                (peakMemoryUsage_ d)); lia.
  - unfold untrackAllocation in *.
    destruct (negb (enabled_ d) || (ptr =? nullptr)); [lia|].
    destruct (allocations_ d !! ptr); simpl in *; lia.
  - lia.
  - lia.
Qed.

Lemma high_water_run cs : ∀ d,
  counters_sound d → no_overflow d cs = true →
  peakMemoryUsage_ (run d cs) = usage_high_water d (peakMemoryUsage_ d) cs.
Proof.
  induction cs as [|c cs IH]; intros d Hsound Hfit; [done|].
  rewrite run_cons. simpl in Hfit.
  apply andb_true_iff in Hfit as [Hc Hcs].
  assert (counters_sound (step d c)) as Hnext.
  { apply sound_step; [done|]. simpl. by rewrite Hc. }
  rewrite (IH _ Hnext Hcs). simpl. f_equal.
  assert (c = ResetStats ∨ c ≠ ResetStats) as [->|Hreset]
    by (destruct c; (by left) || (by right)).
  { done. }
  rewrite (peak_step_max d c Hnext Hreset). by destruct c.
Qed.

(** X7.  On a fresh detector, while no effective [trackAllocation] carries
    the running counter past [SIZE_MAX], [peakMemoryUsage_] is exactly the
    largest value [currentMemoryUsage_] has held since the last
    [resetStats] (since construction when there was none). *)
Theorem peak_is_high_water_mark (cs : list call) :
  no_overflow fresh cs = true →
  peakMemoryUsage_ (run fresh cs) = usage_high_water fresh 0 cs.
Proof.
  intros Hfit. exact (high_water_run cs fresh fresh_sound Hfit).
Qed.

Lemma peak_is_high_water_mark_witness :
  no_overflow fresh scenario_D = true
  ∧ usage_high_water fresh 0 scenario_D = 4096
  ∧ peakMemoryUsage_ (run fresh scenario_D)
    = usage_high_water fresh 0 scenario_D.
Proof.
  split; [reflexivity|]. split; [reflexivity|].
  apply (peak_is_high_water_mark scenario_D). reflexivity.
Defined.

(** ** Track, then untrack *)

(** X8.  On an enabled detector whose counters are [size_t] values, track
    a non-null address that is not live and untrack it at once: the live
    map, the leak count, [currentMemoryUsage_] and every category total
    read as before.  Only the peak keeps the trace: it is the larger of
    the old peak and the usage in between. *)
Theorem track_untrack_round_trip d ptr sz f l func cat now :
  enabled_ d = true →
  ptr ≠ nullptr →
  allocations_ d !! ptr = None →
  is_size_t (currentMemoryUsage_ d) →
  is_size_t (subscript (categoryStats_ d) cat) →
  allocations_
    (untrackAllocation (trackAllocation d ptr sz f l func cat now) ptr)
  = allocations_ d
  ∧ getLeakCount
      (untrackAllocation (trackAllocation d ptr sz f l func cat now) ptr)
    = getLeakCount d
  ∧ currentMemoryUsage_
      (untrackAllocation (trackAllocation d ptr sz f l func cat now) ptr)
    = currentMemoryUsage_ d
  ∧ (∀ k, subscript
            (categoryStats_
               (untrackAllocation (trackAllocation d ptr sz f l func cat now)
                  ptr)) k
          = subscript (categoryStats_ d) k)
  ∧ peakMemoryUsage_
      (untrackAllocation (trackAllocation d ptr sz f l func cat now) ptr)
    = Z.max (peakMemoryUsage_ d) (wrap (currentMemoryUsage_ d + sz)).
Proof.
  intros Hen Hptr Hfree Hcur Hcat.
  rewrite (track_effective d) by done.
  rewrite (untrack_live _ ptr (AllocationInfo.make ptr sz f l func cat now))
    by (try done; simpl; apply lookup_insert_eq).
  unfold getLeakCount. simpl.
  rewrite delete_insert_id by done.
  split; [done|]. split; [done|]. split; [|split].
  - rewrite wrap_sub_l.
    replace (currentMemoryUsage_ d + sz - sz) with (currentMemoryUsage_ d)
      by lia.
    by apply wrap_small.
  - intros k. rewrite subscript_sub_read, subscript_add_same.
    destruct (decide (cat = k)) as [<-|Hk].
    + rewrite wrap_sub_l.
      replace (subscript (categoryStats_ d) cat + sz - sz)
        with (subscript (categoryStats_ d) cat) by lia.
      by apply wrap_small.
    + rewrite subscript_add_read. by rewrite decide_False.
  - destruct (Z.gtb_spec (wrap (currentMemoryUsage_ d + sz))
                (peakMemoryUsage_ d)); lia.
Qed.

Lemma track_untrack_round_trip_witness :
  enabled_ (run fresh scenario_D) = true
  ∧ 7 ≠ nullptr
  ∧ allocations_ (run fresh scenario_D) !! 7 = None
  ∧ allocations_
      (untrackAllocation
         (trackAllocation (run fresh scenario_D) 7 9000 "c.cpp" 3 "h"
            "general" 5) 7)
    = allocations_ (run fresh scenario_D)
  ∧ currentMemoryUsage_
      (untrackAllocation
         (trackAllocation (run fresh scenario_D) 7 9000 "c.cpp" 3 "h"
            "general" 5) 7)
    = currentMemoryUsage_ (run fresh scenario_D).
Proof.
  split; [reflexivity|]. split; [discriminate|].
  split; [vm_compute; reflexivity|].
  destruct (track_untrack_round_trip (run fresh scenario_D)
              7 9000 "c.cpp" 3 "h" "general" 5)
    as (Hmap & _ & Hcur & _);
    [reflexivity | discriminate | vm_compute; reflexivity
    | vm_compute; split; [discriminate | reflexivity]
    | vm_compute; split; [discriminate | reflexivity] |].
  split; [exact Hmap | exact Hcur].
Defined.

(** X9.  A [trackAllocation] or [untrackAllocation] on [ptr] leaves the
    record of every other address as it was, in any state.  When the call
    takes effect, [ptr] afterwards holds exactly the record built from the
    arguments (track) or no record (untrack). *)
Theorem other_addresses_untouched d ptr sz f l func cat now :
  (∀ q, q ≠ ptr →
     allocations_ (trackAllocation d ptr sz f l func cat now) !! q
     = allocations_ d !! q
     ∧ allocations_ (untrackAllocation d ptr) !! q = allocations_ d !! q)
  ∧ (enabled_ d = true → ptr ≠ nullptr →
     allocations_ (trackAllocation d ptr sz f l func cat now) !! ptr
     = Some (AllocationInfo.make ptr sz f l func cat now)
     ∧ allocations_ (untrackAllocation d ptr) !! ptr = None).
Proof.
  split.
  - intros q Hq. unfold trackAllocation, untrackAllocation.
    destruct (negb (enabled_ d) || (ptr =? nullptr)); [done|]. simpl.
    split; [by rewrite lookup_insert_ne|].
    destruct (allocations_ d !! ptr); [|done]. simpl.
    by rewrite lookup_delete_ne.
  - intros Hen Hptr. rewrite track_effective by done. simpl.
    split; [apply lookup_insert_eq|].
    destruct (allocations_ d !! ptr) as [info|] eqn:Hlive.
    + rewrite (untrack_live d ptr info) by done. apply lookup_delete_eq.
    + by rewrite untrack_absent.
Qed.

Lemma other_addresses_untouched_witness :
  2 ≠ 1
  ∧ enabled_ (run fresh balance_law_calls) = true
  ∧ 1 ≠ nullptr
  ∧ allocations_ (untrackAllocation (run fresh balance_law_calls) 1) !! 2
    = allocations_ (run fresh balance_law_calls) !! 2
  ∧ allocations_ (untrackAllocation (run fresh balance_law_calls) 1) !! 1
    = None.
Proof.
  split; [discriminate|]. split; [reflexivity|]. split; [discriminate|].
  destruct (other_addresses_untouched (run fresh balance_law_calls)
              1 0 "" 0 "" "" 0) as [Hother Hsame].
  split.
  - apply (Hother 2). discriminate.
  - apply Hsame; [reflexivity | discriminate].
Defined.

(** X10.  [getLeakCount ()] moves by at most one per call: a
    [trackAllocation] adds one exactly when it takes effect on an address
    that is not live, an [untrackAllocation] removes one exactly when it
    takes effect on a live address; otherwise the count stays. *)
Theorem leak_count_steps d ptr sz f l func cat now :
  getLeakCount (trackAllocation d ptr sz f l func cat now)
  = getLeakCount d
    + (if negb (enabled_ d) || (ptr =? nullptr) then 0
       else match allocations_ d !! ptr with Some _ => 0 | None => 1 end)
  ∧ getLeakCount (untrackAllocation d ptr)
    = getLeakCount d
      - (if negb (enabled_ d) || (ptr =? nullptr) then 0
         else match allocations_ d !! ptr with Some _ => 1 | None => 0 end).
Proof.
  unfold getLeakCount, trackAllocation, untrackAllocation.
  destruct (negb (enabled_ d) || (ptr =? nullptr)); [lia|].
  destruct (allocations_ d !! ptr) as [info|] eqn:Hlive;
    cbn [allocations_].
  - rewrite map_size_insert_Some by done.
    pose proof (map_size_insert_None ptr info (delete ptr (allocations_ d))
                  (lookup_delete_eq _ _)) as Hsize.
    rewrite insert_delete_id in Hsize by done. lia.
  - rewrite map_size_insert_None by done. lia.
Qed.

(** ** [getLeaks] and [hasLeaks] *)

Lemma key_le_transitive : Transitive key_le.
Proof. intros x y z. unfold key_le. lia. Qed.

Lemma key_le_total : Total key_le.
Proof. intros x y. unfold key_le. lia. Qed.

Lemma entries_by_key_perm (m : gmap Z AllocationInfo.t) :
  entries_by_key m ≡ₚ map_to_list m.
Proof. apply merge_sort_Permutation. Qed.

Lemma getLeaks_perm d : getLeaks d ≡ₚ live_records d.
Proof.
  unfold getLeaks, live_records. by rewrite entries_by_key_perm.
Qed.

Lemma foldr_add_size_records (l : list (Z * AllocationInfo.t)) :
  foldr (λ info total, wrap (total + AllocationInfo.size info)) 0 l.*2
  = foldr (uncurry add_size) 0 l.
Proof.
  induction l as [|[ptr info] l IH]; [done|].
  rewrite fmap_cons. cbn [foldr]. by rewrite IH.
Qed.

(** X11.  [getLeaks ()] returns every live record exactly once: it is a
    rearrangement of the values of the live map, its length is
    [getLeakCount ()], a record is in it exactly when some address holds
    it, and adding up its sizes in [size_t] arithmetic gives
    [getLeakedBytes ()]. *)
Theorem getLeaks_lists_live_records d :
  getLeaks d ≡ₚ live_records d
  ∧ Z.of_nat (length (getLeaks d)) = getLeakCount d
  ∧ (∀ info, info ∈ getLeaks d ↔ ∃ ptr, allocations_ d !! ptr = Some info)
  ∧ foldr (λ info total, wrap (total + AllocationInfo.size info)) 0
      (getLeaks d)
    = getLeakedBytes d.
Proof.
  split; [apply getLeaks_perm|]. split; [|split].
  - unfold getLeakCount, getLeaks.
    by rewrite length_fmap, entries_by_key_perm, length_map_to_list.
  - intros info. rewrite getLeaks_perm. unfold live_records.
    rewrite list_elem_of_fmap. split.
    + intros [[ptr info'] [-> Hin]]. exists ptr.
      by apply elem_of_map_to_list.
    + intros [ptr Hlive]. exists (ptr, info). split; [done|].
      by apply elem_of_map_to_list.
  - unfold getLeaks, getLeakedBytes.
    rewrite foldr_add_size_records, map_fold_foldr.
    apply leaked_bytes_perm, entries_by_key_perm.
Qed.

Lemma sorted_keys_strict (l : list (Z * AllocationInfo.t)) :
  StronglySorted key_le l → NoDup l.*1 → StronglySorted Z.lt l.*1.
Proof.
  induction 1 as [|x l Hsorted IH Hall]; intros Hnodup; [constructor|].
  rewrite fmap_cons in *. apply NoDup_cons in Hnodup as [Hfresh Hnodup].
  constructor; [by apply IH|].
  apply Forall_fmap, Forall_forall. intros y Hy. simpl.
  rewrite Forall_forall in Hall. specialize (Hall y Hy).
  unfold key_le in Hall.
  assert (x.1 ≠ y.1) as Hne.
  { intros Heq. apply Hfresh. rewrite Heq.
    apply list_elem_of_fmap. by exists y. }
  lia.
Qed.

Lemma keyed_pointers (l : list (Z * AllocationInfo.t)) :
  Forall (λ x, AllocationInfo.pointer x.2 = x.1) l →
  AllocationInfo.pointer <$> l.*2 = l.*1.
Proof.
  induction 1 as [|[ptr info] l Hx _ IH]; [done|].
  rewrite !fmap_cons, IH. f_equal. exact Hx.
Qed.

(** X12.  After any call sequence on a fresh detector, [getLeaks ()]
    lists the records by strictly ascending address (the key order of the
    [std::map]): no address appears twice, and the report numbers the
    leaks from the lowest address up. *)
Theorem getLeaks_ascending (cs : list call) :
  StronglySorted Z.lt
    (AllocationInfo.pointer <$> getLeaks (run fresh cs)).
Proof.
  assert (records_keyed (run fresh cs)) as Hkeyed.
  { apply records_keyed_run. apply map_Forall_empty. }
  unfold getLeaks. rewrite keyed_pointers.
  - apply sorted_keys_strict.
    + apply (@StronglySorted_merge_sort _ key_le key_le_dec
               key_le_transitive key_le_total).
    + rewrite entries_by_key_perm. apply NoDup_fst_map_to_list.
  - apply Forall_forall. intros [ptr info] Hin. simpl.
    rewrite entries_by_key_perm in Hin.
    apply elem_of_map_to_list in Hin.
    by destruct (map_Forall_lookup_1 _ _ _ _ Hkeyed Hin).
Qed.

(** X13.  [hasLeaks ()] is true exactly when [getLeakCount ()] is
    positive, and exactly when [getLeaks ()] is non-empty.  When it is
    false, [getLeakedBytes ()] is zero and both group maps of
    [getStats ()] are empty. *)
Theorem hasLeaks_iff_count d now :
  (hasLeaks d = true ↔ 0 < getLeakCount d)
  ∧ (hasLeaks d = true ↔ getLeaks d ≠ [])
  ∧ (hasLeaks d = false →
     getLeakedBytes d = 0
     ∧ leaksByCategory (getStats d now) = ∅
     ∧ leaksByFile (getStats d now) = ∅).
Proof.
  unfold hasLeaks. rewrite negb_true_iff, negb_false_iff.
  rewrite bool_decide_eq_false, bool_decide_eq_true.
  split; [|split].
  - unfold getLeakCount. rewrite <- map_size_non_empty_iff. lia.
  - split.
    + intros Hne Hnil. apply Hne, map_to_list_empty_iff.
      apply Permutation_nil_r. rewrite <- entries_by_key_perm.
      unfold getLeaks in Hnil. by apply fmap_nil_inv in Hnil as ->.
    + intros Hne Hempty. apply Hne. unfold getLeaks, entries_by_key.
      by rewrite Hempty, map_to_list_empty.
  - intros Hempty. unfold getStats, getLeakedBytes. simpl.
    by rewrite Hempty, !map_fold_empty.
Qed.

Lemma hasLeaks_iff_count_witness :
  hasLeaks (run fresh [Track 1 4096 "a.cpp" 10 "f" "general" 0; Untrack 1])
  = false
  ∧ getLeakedBytes
      (run fresh [Track 1 4096 "a.cpp" 10 "f" "general" 0; Untrack 1]) = 0
  ∧ (hasLeaks (run fresh scenario_D) = true
     ↔ 0 < getLeakCount (run fresh scenario_D)).
Proof.
  split; [vm_compute; reflexivity|]. split.
  - apply (proj2 (proj2 (hasLeaks_iff_count
             (run fresh [Track 1 4096 "a.cpp" 10 "f" "general" 0; Untrack 1])
             0))).
    vm_compute. reflexivity.
  - apply (proj1 (hasLeaks_iff_count (run fresh scenario_D) 0)).
Defined.

(** ** [clear] and [resetStats] together *)

(** X14.  [clear ()] followed by [resetStats ()] brings the detector back
    to its freshly constructed state, the enabled switch aside.  In the
    other order the peak survives: it is left at the usage the detector
    had before the calls. *)
Theorem clear_then_resetStats d :
  resetStats (clear d) = setEnabled fresh (enabled_ d)
  ∧ peakMemoryUsage_ (clear (resetStats d)) = currentMemoryUsage_ d
  ∧ currentMemoryUsage_ (clear (resetStats d)) = 0.
Proof. done. Qed.

(** ** Overwritten bytes, and how [clear] recovers from them *)

(** X15.  On an enabled detector whose counter is a [size_t] value, track
    an address that is already live and untrack it at once: the record is
    gone and the scan of [getLeakedBytes ()] drops by the size of the old
    record, but [currentMemoryUsage_] reads as before the two calls.  The
    bytes of the overwritten record stay in the counter. *)
Theorem retrack_untrack_keeps_old_bytes d ptr sz f l func cat now old :
  enabled_ d = true →
  ptr ≠ nullptr →
  allocations_ d !! ptr = Some old →
  is_size_t (currentMemoryUsage_ d) →
  allocations_
    (untrackAllocation (trackAllocation d ptr sz f l func cat now) ptr)
  = delete ptr (allocations_ d)
  ∧ currentMemoryUsage_
      (untrackAllocation (trackAllocation d ptr sz f l func cat now) ptr)
    = currentMemoryUsage_ d
  ∧ getLeakedBytes
      (untrackAllocation (trackAllocation d ptr sz f l func cat now) ptr)
    = wrap (getLeakedBytes d - AllocationInfo.size old).
Proof.
  intros Hen Hptr Hlive Hcur.
  rewrite !leaked_bytes_exact.
  rewrite (track_effective d) by done.
  rewrite (untrack_live _ ptr (AllocationInfo.make ptr sz f l func cat now))
    by (try done; simpl; apply lookup_insert_eq).
  simpl. rewrite delete_insert_eq.
  split; [done|]. split.
  - rewrite wrap_sub_l.
    replace (currentMemoryUsage_ d + sz - sz) with (currentMemoryUsage_ d)
      by lia.
    by apply wrap_small.
  - rewrite (exact_live_bytes_delete _ ptr old) by done.
    by rewrite wrap_sub_l.
Qed.

Lemma retrack_untrack_keeps_old_bytes_witness :
  enabled_ (run fresh scenario_D) = true
  ∧ 2 ≠ nullptr
  ∧ allocations_ (run fresh scenario_D) !! 2
    = Some (AllocationInfo.make 2 1024 "a.cpp" 20 "g" "general" 1)
  ∧ allocations_
      (untrackAllocation
         (trackAllocation (run fresh scenario_D) 2 16 "c.cpp" 3 "h" "x" 5) 2)
    = delete 2 (allocations_ (run fresh scenario_D))
  ∧ currentMemoryUsage_
      (untrackAllocation
         (trackAllocation (run fresh scenario_D) 2 16 "c.cpp" 3 "h" "x" 5) 2)
    = currentMemoryUsage_ (run fresh scenario_D).
Proof.
  split; [reflexivity|]. split; [discriminate|].
  split; [vm_compute; reflexivity|].
  destruct (retrack_untrack_keeps_old_bytes (run fresh scenario_D)
              2 16 "c.cpp" 3 "h" "x" 5
              (AllocationInfo.make 2 1024 "a.cpp" 20 "g" "general" 1))
    as (Hmap & Hcur & _);
    [reflexivity | discriminate | vm_compute; reflexivity
    | vm_compute; split; [discriminate | reflexivity] |].
  split; [exact Hmap | exact Hcur].
Defined.

(** X16.  [clear ()] recovers from any drift.  Whatever state the
    detector was in, after [clear ()] and any further calls among which no
    effective [trackAllocation] lands on a live address,
    [currentMemoryUsage_] equals [getLeakedBytes ()] and every category
    total equals what the snapshot reports for the category. *)
Theorem clear_restores_balance d (cs : list call) now k :
  no_overwrite (clear d) cs = true →
  currentMemoryUsage_ (run (clear d) cs) = getLeakedBytes (run (clear d) cs)
  ∧ subscript (categoryStats_ (run (clear d) cs)) k
    = subscript (leaksByCategory (getStats (run (clear d) cs) now)) k.
Proof.
  intros Hfree. split.
  - rewrite leaked_bytes_exact. by apply balanced_run.
  - unfold subscript at 2. rewrite stats_category_lookup.
    by apply category_totals_run.
Qed.

Lemma clear_restores_balance_witness :
  currentMemoryUsage_ (run fresh retrack_calls)
  ≠ getLeakedBytes (run fresh retrack_calls)
  ∧ no_overwrite (clear (run fresh retrack_calls)) mixed_calls = true
  ∧ currentMemoryUsage_ (run (clear (run fresh retrack_calls)) mixed_calls)
    = getLeakedBytes (run (clear (run fresh retrack_calls)) mixed_calls).
Proof.
  split; [vm_compute; discriminate|]. split; [vm_compute; reflexivity|].
  apply (clear_restores_balance (run fresh retrack_calls) mixed_calls 0 "a").
  vm_compute. reflexivity.
Defined.

(** ** Two tracks in either order *)



